(** * websockets.__main__ : the interactive client

    A shallow embedding of [src/websockets/__main__.py]: the two terminal
    printers, the receiver thread [print_incoming_messages], the body of
    [main], and a small-step interleaving semantics of the two threads
    and the shared [threading.Event]. *)

From Stdlib Require Import List String Ascii ZArith NArith Bool Lia.
From Stdlib Require Import Strings.Byte.
From Stdlib Require Import DecimalString.
Import ListNotations.
Local Open Scope string_scope.

(** ** Characters and control sequences *)

Module Chars.

Definition ESC : ascii := ascii_of_nat 27.
Definition LINE_FEED : ascii := ascii_of_nat 10.
Definition CARRIAGE_RETURN : ascii := ascii_of_nat 13.

Definition chr (c : ascii) : string := String c "".

End Chars.

(** ** Incoming messages *)

Module Message.

(** An item yielded by iterating the connection: [str] or [bytes]. *)
Inductive message : Type :=
| Text (s : string)
| Binary (b : list byte).

(** [isinstance(message, str)] *)
Definition isinstance_str (m : message) : bool :=
  match m with
  | Text _ => true
  | Binary _ => false
  end.

(** One lowercase hexadecimal digit, for [n < 16]. *)
Definition hex_digit (n : N) : ascii :=
  match n with
  | 0%N => "0" | 1%N => "1" | 2%N => "2" | 3%N => "3"
  | 4%N => "4" | 5%N => "5" | 6%N => "6" | 7%N => "7"
  | 8%N => "8" | 9%N => "9" | 10%N => "a" | 11%N => "b"
  | 12%N => "c" | 13%N => "d" | 14%N => "e" | _ => "f"
  end%char.

Definition hex_byte (b : byte) : string :=
  let n := Byte.to_N b in
  String (hex_digit (n / 16)) (String (hex_digit (n mod 16)) "").

(** [bytes.hex()]: two lowercase digits per byte, no separator. *)
Fixpoint hex (b : list byte) : string :=
  match b with
  | [] => ""
  | x :: r => hex_byte x ++ hex r
  end.

(** The value of a hexadecimal digit. *)
Definition hex_value (c : ascii) : option N :=
  let n := N_of_ascii c in
  if ((48 <=? n) && (n <=? 57))%N then Some (n - 48)%N
  else if ((97 <=? n) && (n <=? 102))%N then Some (n - 87)%N
  else None.

End Message.
Export Message.

(** ** Observable actions

    Every call the program makes on a collaborator ([sys.stdout],
    [sys.stderr], [input], the connection, the [threading] objects, [os])
    is recorded, in program order, as one action. *)

Inductive stream : Type := Stdout | Stderr.

Inductive signal_t : Type := SIGINT | CTRL_C_EVENT.

Inductive action : Type :=
| Write (f : stream) (s : string)      (* f.write(s) *)
| Flush (f : stream)                   (* f.flush() *)
| Input (prompt : string)              (* input(prompt) *)
| Connect (uri : string)               (* connect(uri) *)
| Send (s : string)                    (* websocket.send(s) *)
| Close                                (* websocket.close() *)
| StopSet                              (* stop.set() *)
| ThreadStart                          (* thread.start() *)
| ThreadJoin                           (* thread.join() *)
| Kill (sig : signal_t).               (* os.kill(os.getpid(), sig) *)

Definition trace := list action.

(** Text written to a stream, all writes concatenated. *)
Fixpoint written (f : stream) (t : trace) : string :=
  match t with
  | [] => ""
  | Write Stdout s :: r =>
      match f with Stdout => s ++ written f r | Stderr => written f r end
  | Write Stderr s :: r =>
      match f with Stderr => s ++ written f r | Stdout => written f r end
  | _ :: r => written f r
  end.

(** ** Terminal printer *)

Module Printer.
Import Chars.

(** The string handed to [sys.stdout.write] by [print_during_input]:
    the adjacent literals of lines 55-67, concatenated. *)
Definition during_input_text (s : string) : string :=
  (chr ESC ++ "7")
  ++ chr LINE_FEED
  ++ (chr ESC ++ "[A")
  ++ (chr ESC ++ "[L")
  ++ (s ++ chr LINE_FEED)
  ++ (chr ESC ++ "8")
  ++ (chr ESC ++ "[B").

(** [print_during_input(string)]: one write, then a flush. *)
Definition print_during_input (s : string) : trace :=
  [Write Stdout (during_input_text s); Flush Stdout].

(** The string handed to [sys.stdout.write] by [print_over_input]
    (lines 75-79). *)
Definition over_input_text (s : string) : string :=
  chr CARRIAGE_RETURN
  ++ (chr ESC ++ "[K")
  ++ (s ++ chr LINE_FEED).

(** [print_over_input(string)]: one write, then a flush. *)
Definition print_over_input (s : string) : trace :=
  [Write Stdout (over_input_text s); Flush Stdout].

(** The terminal operations the printers are documented to perform, and
    their encoding as VT100 / ECMA-48 control functions with default
    parameters. *)
Inductive term_op : Type :=
| SaveCursor          (* DECSC, ESC 7 *)
| RestoreCursor       (* DECRC, ESC 8 *)
| NewLine             (* LF *)
| ColumnStart         (* CR *)
| CursorUp            (* CUU, CSI A *)
| CursorDown          (* CUD, CSI B *)
| InsertLine          (* IL, CSI L *)
| EraseLine           (* EL, CSI K *)
| Put (s : string).

Definition CSI : string := chr ESC ++ "[".

Definition encode_op (o : term_op) : string :=
  match o with
  | SaveCursor => chr ESC ++ "7"
  | RestoreCursor => chr ESC ++ "8"
  | NewLine => chr LINE_FEED
  | ColumnStart => chr CARRIAGE_RETURN
  | CursorUp => CSI ++ "A"
  | CursorDown => CSI ++ "B"
  | InsertLine => CSI ++ "L"
  | EraseLine => CSI ++ "K"
  | Put s => s
  end.

Fixpoint encode (l : list term_op) : string :=
  match l with
  | [] => ""
  | o :: r => encode_op o ++ encode r
  end.

End Printer.
Export Printer.

(** ** Exceptions and the ways [main] can end *)

Inductive exn : Type :=
| KeyboardInterrupt
| EOFError
| AssertionError
| ConnectionClosed
| OtherError (msg : string).

Inductive outcome : Type :=
| Returned                       (* the function returns *)
| SysExit (code : Z)             (* sys.exit(code) *)
| ParserError (msg : string)     (* parser.error(msg) *)
| Uncaught (e : exn).            (* an exception leaves main *)

(** [except (KeyboardInterrupt, EOFError)] at line 151. *)
Definition caught (e : exn) : bool :=
  match e with
  | KeyboardInterrupt | EOFError => true
  | _ => false
  end.

(** ** The receiver thread *)

Module Receiver.

(** Lines 93-96: the signal that stands for ^C on this platform. *)
Definition ctrl_c (platform : string) : signal_t :=
  if String.eqb platform "win32" then CTRL_C_EVENT else SIGINT.

(** Lines 86-89: the body of the [for] loop, for one item. *)
Definition print_message (m : message) : trace :=
  match m with
  | Text s => print_during_input ("< " ++ s)
  | Binary b => print_during_input ("< (binary) " ++ hex b)
  end.

(** Lines 90-97: what the thread does once the iteration has ended;
    [is_set] is the value [stop.is_set()] returns at that moment. *)
Definition after_messages (platform : string) (is_set : bool) : trace :=
  if negb is_set then [Kill (ctrl_c platform)] else [].

(** [print_incoming_messages(websocket, stop)]: [incoming] is the
    sequence the connection yields before its iteration ends. *)
Definition print_incoming_messages
    (platform : string) (incoming : list message) (is_set : bool) : trace :=
  (flat_map print_message incoming ++ after_messages platform is_set)%list.

End Receiver.
Export Receiver.

(** ** The main thread *)

Module Main.
Import Chars.

(** [print(s)]: the text, then the line end, on standard output. *)
Definition print (s : string) : trace :=
  [Write Stdout s; Write Stdout (chr LINE_FEED)].

(** Decimal rendering of a Python [int]. *)
Definition str_int (z : Z) : string := NilZero.string_of_int (Z.to_int z).

(** Modelled from the spec: [Close.__str__] lives in [frames.py], which is
    not part of the sources at hand.  The specification gives the final
    line as "Connection closed: <code> <reason>." from the close status,
    so the status renders as the code, a space, and the reason. *)
Definition Close_str (code : Z) (reason : string) : string :=
  str_int code ++ " " ++ reason.

(** The connection object, as far as [main] reads it: the two attributes
    as they stand once [close()] has returned. *)
Record connection : Type := {
  close_code : option Z;
  close_reason : option string
}.

(** What [websocket.send(message)] does. *)
Inductive send_result : Type :=
| SendOk
| SendRaises (e : exn).

(** What one call of [input("> ")] does: a line comes back (and is then
    sent), or ^C arrives.  A script that runs out is the end of standard
    input, [EOFError]. *)
Inductive stdin_step : Type :=
| Line (s : string) (r : send_result)
| Interrupt.

(** Lines 147-150: [while True: message = input("> "); websocket.send(message)].
    The loop can only be left by an exception, which is returned. *)
Fixpoint input_loop (script : list stdin_step) : trace * exn :=
  match script with
  | [] => ([Input "> "], EOFError)
  | Interrupt :: _ => ([Input "> "], KeyboardInterrupt)
  | Line s SendOk :: rest =>
      let (t, e) := input_loop rest in
      (Input "> " :: Send s :: t, e)
  | Line s (SendRaises e) :: _ => ([Input "> "; Send s], e)
  end.

(** Lines 155-157: the assertion and the text of the final line;
    [None] when the assertion fails. *)
Definition close_status (c : connection) : option string :=
  match close_code c, close_reason c with
  | Some code, Some reason =>
      Some ("Connection closed: " ++ Close_str code reason ++ ".")
  | _, _ => None
  end.

(** Lines 152-157: the body of the [except] clause. *)
Definition on_interrupt (c : connection) : trace * outcome :=
  match close_status c with
  | Some line => (([StopSet; Close] ++ print_over_input line)%list, Returned)
  | None => ([StopSet; Close], Uncaught AssertionError)
  end.

(** Lines 139-159: from [stop = threading.Event()] to [thread.join()]. *)
Definition session (script : list stdin_step) (c : connection)
  : trace * outcome :=
  let (t, e) := input_loop script in
  if caught e then
    let (h, o) := on_interrupt c in
    match o with
    | Returned => ((ThreadStart :: t ++ h ++ [ThreadJoin])%list, Returned)
    | _ => ((ThreadStart :: t ++ h)%list, o)
    end
  else (ThreadStart :: t, Uncaught e).

(** Everything [main] takes from its surroundings. *)
Record env : Type := {
  platform : string;                       (* sys.platform *)
  websockets_version : string;             (* .version.version *)
  args_version : bool;                     (* args.version *)
  args_uri : option string;                (* args.uri *)
  vt100_error : option string;             (* RuntimeError of win_enable_vt100 *)
  connect : string -> string + connection; (* connect(uri): str(exc) or the connection *)
  stdin : list stdin_step
}.

(** Lines 120-129. *)
Definition enable_vt100 (e : env) : trace :=
  if String.eqb (platform e) "win32" then
    match vt100_error e with
    | Some exc =>
        [Write Stderr
           ("Unable to set terminal to VT100 mode. This is only "
            ++ "supported since Win10 anniversary update. Expect "
            ++ "weird symbols on the terminal." ++ chr LINE_FEED
            ++ "Error: " ++ exc ++ chr LINE_FEED);
         Flush Stderr]
    | None => []
    end
  else [].

(** [main()], lines 100-159. *)
Definition main (e : env) : trace * outcome :=
  if args_version e then
    (print ("websockets " ++ websockets_version e), Returned)
  else
    match args_uri e with
    | None => ([], ParserError "the following arguments are required: <uri>")
    | Some uri =>
        let t0 := (enable_vt100 e ++ [Connect uri])%list in
        match connect e uri with
        | inl exc =>
            ((t0 ++ print ("Failed to connect to " ++ uri ++ ": " ++ exc ++ "."))%list,
             SysExit 1)
        | inr websocket =>
            let (t, o) := session (stdin e) websocket in
            ((t0 ++ print ("Connected to " ++ uri ++ ".") ++ t)%list, o)
        end
    end.

End Main.
Export Main.

(** ** The two threads together

    An interleaving semantics of the main thread (lines 146-159) and the
    receiver thread (lines 84-97) over the objects they share.  Each
    transition is one statement of the source; the scheduler may pick
    either thread at every point, and the peer and the user may act at
    any time. *)

Module Threads.

Inductive thread : Type := MainThread | ReceiverThread.

Definition event : Type := (thread * action)%type.

(** Program points of the main thread. *)
Inductive main_pc : Type :=
| AtInput                 (* line 149: in input("> ") *)
| AtSend (s : string)     (* line 150: before websocket.send(message) *)
| AtStopSet               (* line 152: before stop.set() *)
| AtClose                 (* line 153: before websocket.close() *)
| AtStatus                (* lines 155-157 *)
| AtJoin                  (* line 159: in thread.join() *)
| MainReturned
| MainRaised (e : exn).

(** Program points of the receiver thread. *)
Inductive receiver_pc : Type :=
| AtNext                  (* line 85: waiting for the next item *)
| AtPrint (m : message)   (* lines 86-89 *)
| AtIsSet                 (* line 90: before stop.is_set() *)
| AtKill                  (* line 97: before os.kill *)
| ReceiverReturned.

(** The shared objects. *)
Record world : Type := {
  stop : bool;            (* the threading.Event *)
  closed : bool;          (* the connection is closed: its iteration ends *)
  close_called : bool;    (* main has invoked websocket.close() *)
  remote_closed : bool;   (* the peer closed, or the transport failed *)
  sigint : bool           (* an interrupt is pending for the main thread *)
}.

Record config : Type := {
  mpc : main_pc;
  rpc : receiver_pc;
  shared : world
}.

Definition set_stop (w : world) : world :=
  {| stop := true; closed := closed w; close_called := close_called w;
     remote_closed := remote_closed w; sigint := sigint w |}.

Definition local_close (w : world) : world :=
  {| stop := stop w; closed := true; close_called := true;
     remote_closed := remote_closed w; sigint := sigint w |}.

(** Modelled from the spec: the connection's iterator is defined in
    [sync/client.py], outside the sources at hand; its incoming sequence
    "terminates on close/error", so the [for] loop of line 85 ends once
    the connection is closed, by either side. *)
Definition iteration_ended (w : world) : bool := closed w.

(** Modelled from the spec: a close by the peer and a transport failure
    are "treated identically"; both close the connection. *)
Definition peer_close (w : world) : world :=
  {| stop := stop w; closed := true; close_called := close_called w;
     remote_closed := true; sigint := sigint w |}.

Definition raise_sigint (w : world) : world :=
  {| stop := stop w; closed := closed w; close_called := close_called w;
     remote_closed := remote_closed w; sigint := true |}.

Definition take_sigint (w : world) : world :=
  {| stop := stop w; closed := closed w; close_called := close_called w;
     remote_closed := remote_closed w; sigint := false |}.

(** Where [KeyboardInterrupt] takes the main thread: inside the [try]
    it is caught at line 151, elsewhere it leaves [main]. *)
Definition interrupted (pc : main_pc) : option main_pc :=
  match pc with
  | AtInput | AtSend _ => Some AtStopSet
  | AtStopSet | AtClose | AtStatus | AtJoin => Some (MainRaised KeyboardInterrupt)
  | MainReturned | MainRaised _ => None
  end.

Inductive step (platform : string) : config -> list event -> config -> Prop :=
(* main thread *)
| main_line r w s :
    step platform {| mpc := AtInput; rpc := r; shared := w |}
         [(MainThread, Input "> ")]
         {| mpc := AtSend s; rpc := r; shared := w |}
| main_eof r w :
    step platform {| mpc := AtInput; rpc := r; shared := w |}
         [(MainThread, Input "> ")]
         {| mpc := AtStopSet; rpc := r; shared := w |}
| main_send r w s :
    step platform {| mpc := AtSend s; rpc := r; shared := w |}
         [(MainThread, Send s)]
         {| mpc := AtInput; rpc := r; shared := w |}
| main_send_raises r w s :
    closed w = true ->
    step platform {| mpc := AtSend s; rpc := r; shared := w |}
         [(MainThread, Send s)]
         {| mpc := MainRaised ConnectionClosed; rpc := r; shared := w |}
| main_interrupted pc pc' r w :
    sigint w = true ->
    interrupted pc = Some pc' ->
    step platform {| mpc := pc; rpc := r; shared := w |}
         []
         {| mpc := pc'; rpc := r; shared := take_sigint w |}
| main_stop_set r w :
    step platform {| mpc := AtStopSet; rpc := r; shared := w |}
         [(MainThread, StopSet)]
         {| mpc := AtClose; rpc := r; shared := set_stop w |}
| main_close r w :
    step platform {| mpc := AtClose; rpc := r; shared := w |}
         [(MainThread, Close)]
         {| mpc := AtStatus; rpc := r; shared := local_close w |}
| main_status r w c line :
    close_status c = Some line ->
    step platform {| mpc := AtStatus; rpc := r; shared := w |}
         (map (pair MainThread) (print_over_input line))
         {| mpc := AtJoin; rpc := r; shared := w |}
| main_assert_fails r w c :
    close_status c = None ->
    step platform {| mpc := AtStatus; rpc := r; shared := w |}
         []
         {| mpc := MainRaised AssertionError; rpc := r; shared := w |}
| main_join w :
    step platform {| mpc := AtJoin; rpc := ReceiverReturned; shared := w |}
         [(MainThread, ThreadJoin)]
         {| mpc := MainReturned; rpc := ReceiverReturned; shared := w |}
(* receiver thread *)
| receiver_item p w m :
    iteration_ended w = false ->
    step platform {| mpc := p; rpc := AtNext; shared := w |}
         []
         {| mpc := p; rpc := AtPrint m; shared := w |}
| receiver_end p w :
    iteration_ended w = true ->
    step platform {| mpc := p; rpc := AtNext; shared := w |}
         []
         {| mpc := p; rpc := AtIsSet; shared := w |}
| receiver_print p w m :
    step platform {| mpc := p; rpc := AtPrint m; shared := w |}
         (map (pair ReceiverThread) (print_message m))
         {| mpc := p; rpc := AtNext; shared := w |}
| receiver_unset p w :
    stop w = false ->
    step platform {| mpc := p; rpc := AtIsSet; shared := w |}
         []
         {| mpc := p; rpc := AtKill; shared := w |}
| receiver_set p w :
    stop w = true ->
    step platform {| mpc := p; rpc := AtIsSet; shared := w |}
         []
         {| mpc := p; rpc := ReceiverReturned; shared := w |}
| receiver_kill p w :
    step platform {| mpc := p; rpc := AtKill; shared := w |}
         [(ReceiverThread, Kill (ctrl_c platform))]
         {| mpc := p; rpc := ReceiverReturned; shared := raise_sigint w |}
(* the surroundings *)
| peer_closes p r w :
    step platform {| mpc := p; rpc := r; shared := w |}
         []
         {| mpc := p; rpc := r; shared := peer_close w |}
| user_interrupts p r w :
    step platform {| mpc := p; rpc := r; shared := w |}
         []
         {| mpc := p; rpc := r; shared := raise_sigint w |}.

(** Executions: finitely many steps, the events collected in order. *)
Inductive run (platform : string) (c : config)
  : list event -> config -> Prop :=
| run_nil : run platform c [] c
| run_snoc t c' l c'' :
    run platform c t c' -> step platform c' l c'' ->
    run platform c (t ++ l)%list c''.

(** Both threads at their first statement, right after [thread.start()]. *)
Definition initial : config :=
  {| mpc := AtInput; rpc := AtNext;
     shared := {| stop := false; closed := false; close_called := false;
                  remote_closed := false; sigint := false |} |}.

(** [a] occurs before every occurrence of [b]. *)
Definition precedes (a b : event) (t : list event) : Prop :=
  forall pre post, t = (pre ++ b :: post)%list -> In a pre.

(** What holds of every configuration reachable from [initial], together
    with the events emitted on the way there. *)
Definition invariant (c : config) (t : list event) : Prop :=
  let w := shared c in
  (close_called w = true -> stop w = true)
  /\ (closed w = true -> close_called w = true \/ remote_closed w = true)
  /\ (stop w = true -> In (MainThread, StopSet) t)
  /\ (mpc c = AtClose -> stop w = true)
  /\ precedes (MainThread, StopSet) (MainThread, Close) t
  /\ (rpc c = AtIsSet -> closed w = true)
  /\ (rpc c = AtKill -> remote_closed w = true)
  /\ (forall sig, In (ReceiverThread, Kill sig) t -> remote_closed w = true).

End Threads.

(** ** Enabling VT-100 on Windows *)

Module Console.
Local Open Scope Z_scope.

(** [sys.byteorder] *)
Inductive byteorder : Type := little | big.

(** The value held by [ctypes.c_uint(z)]: [z] wrapped to 32 bits. *)
Definition c_uint (z : Z) : Z := z mod 2 ^ 32.

Definition INVALID_HANDLE_VALUE : Z := c_uint (-1).
Definition ENABLE_VIRTUAL_TERMINAL_PROCESSING : Z := 4.   (* 0x004 *)

(** The four bytes of a [c_uint], least significant first. *)
Definition le_bytes (v : Z) : list Z :=
  [v mod 256; (v / 256) mod 256; (v / 65536) mod 256; (v / 16777216) mod 256].

(** The buffer of a [c_uint] object, in the byte order of the machine. *)
Definition buffer (o : byteorder) (v : Z) : list Z :=
  match o with
  | little => le_bytes v
  | big => rev (le_bytes v)
  end.

Fixpoint from_big (acc : Z) (bs : list Z) : Z :=
  match bs with
  | [] => acc
  | b :: r => from_big (acc * 256 + b) r
  end.

(** [int.from_bytes(bs, o)] *)
Definition int_from_bytes (bs : list Z) (o : byteorder) : Z :=
  match o with
  | big => from_big 0 bs
  | little => from_big 0 (rev bs)
  end.



(** Lines 45-46: the mode handed to [SetConsoleMode], from the value
    [GetConsoleMode] stored in [cur_mode]. *)
Definition new_mode (o : byteorder) (stored : Z) : Z :=
  let cur_mode := c_uint stored in
  let py_int_mode := int_from_bytes (buffer o cur_mode) o in
  c_uint (Z.lor py_int_mode ENABLE_VIRTUAL_TERMINAL_PROCESSING).


End Console.

(** ** Reading traces *)

Module Observe.
Import Threads.

Definition is_write (a : action) : bool :=
  match a with Write _ _ => true | _ => false end.
Definition is_flush (a : action) : bool :=
  match a with Flush _ => true | _ => false end.
Definition is_input (a : action) : bool :=
  match a with Input _ => true | _ => false end.
Definition is_send (a : action) : bool :=
  match a with Send _ => true | _ => false end.
Definition is_connect (a : action) : bool :=
  match a with Connect _ => true | _ => false end.
Definition is_stop_set (a : action) : bool :=
  match a with StopSet => true | _ => false end.
Definition is_close (a : action) : bool :=
  match a with Close => true | _ => false end.
Definition is_kill (a : action) : bool :=
  match a with Kill _ => true | _ => false end.

(** How many actions of a kind a trace holds. *)
Definition count (p : action -> bool) (t : trace) : nat :=
  List.length (filter p t).

(** The payloads handed to [send], in order. *)
Fixpoint sent (t : trace) : list string :=
  match t with
  | [] => []
  | Send s :: r => s :: sent r
  | _ :: r => sent r
  end.

(** The lines a script holds, in order. *)
Fixpoint typed (script : list stdin_step) : list string :=
  match script with
  | [] => []
  | Line s _ :: r => s :: typed r
  | Interrupt :: r => typed r
  end.

(** How many events of a kind an execution holds, whichever the thread. *)
Definition occurrences (p : action -> bool) (t : list event) : nat :=
  count p (map snd t).

(** The main thread has passed line 151: it is in the [except] clause
    or beyond. *)
Definition past_loop (pc : main_pc) : bool :=
  match pc with
  | AtInput | AtSend _ => false
  | _ => true
  end.

(** What an execution holds after the main thread's [stop.set()]. *)
Fixpoint after_stop (t : list event) : list event :=
  match t with
  | [] => []
  | (_, StopSet) :: r => r
  | _ :: r => after_stop r
  end.

(** What holds of every reachable configuration besides [invariant]:
    how far the main thread is against what has been emitted. *)
Definition orderly (c : config) (t : list event) : Prop :=
  let w := shared c in
  (past_loop (mpc c) = false -> occurrences is_stop_set t = 0)
  /\ (mpc c = AtStopSet -> occurrences is_stop_set t = 0)
  /\ (mpc c = AtClose ->
      occurrences is_stop_set t = 1 /\ occurrences is_close t = 0
      /\ stop w = true)
  /\ occurrences is_close t <= occurrences is_stop_set t <= 1
  /\ (mpc c = AtStatus \/ mpc c = AtJoin \/ mpc c = MainReturned ->
      stop w = true /\ close_called w = true)
  /\ (mpc c = MainReturned -> rpc c = ReceiverReturned)
  /\ (rpc c <> ReceiverReturned -> occurrences is_kill t = 0)
  /\ occurrences is_kill t <= 1
  /\ occurrences is_send (after_stop t) = 0
  /\ occurrences is_input (after_stop t) = 0.

(** The surroundings [e], except that [win_enable_vt100] succeeds. *)
Definition without_vt100_error (e : env) : env :=
  {| platform := platform e;
     websockets_version := websockets_version e;
     args_version := args_version e;
     args_uri := args_uri e;
     vt100_error := None;
     connect := connect e;
     stdin := stdin e |}.

(** The actions a session of [main] is made of. *)
Definition session_action (a : action) : bool :=
  match a with
  | ThreadStart | ThreadJoin | StopSet | Close => true
  | Input _ | Send _ => true
  | Write Stdout _ | Flush Stdout => true
  | _ => false
  end.

End Observe.

(** * Properties *)

(** ** Strings *)

Lemma append_assoc (a b c : string) : (a ++ b) ++ c = a ++ (b ++ c).
Proof.
  induction a as [|x a IH]; simpl; [reflexivity|].
  now rewrite IH.
Qed.

Lemma append_nil_r (a : string) : a ++ "" = a.
Proof.
  induction a as [|x a IH]; simpl; [reflexivity|].
  now rewrite IH.
Qed.

Lemma written_app (f : stream) (t u : trace) :
  written f (t ++ u)%list = written f t ++ written f u.
Proof.
  induction t as [|a t IH]; simpl; [reflexivity|].
  destruct a as [[] s| | | | | | | | |]; destruct f; simpl;
    rewrite ?IH, ?append_assoc; reflexivity.
Qed.

(** ** Hexadecimal rendering *)

Lemma hex_length (b : list byte) :
  String.length (hex b) = 2 * List.length b.
Proof.
  induction b as [|x b IH]; simpl; [reflexivity|].
  rewrite IH. lia.
Qed.

Lemma hex_empty_iff (b : list byte) : hex b = "" <-> b = [].
Proof.
  split; intros H; [|subst; reflexivity].
  destruct b as [|x b]; [reflexivity|].
  apply (f_equal String.length) in H.
  rewrite hex_length in H; simpl in H; lia.
Qed.

(** The two digits of a byte are lowercase digits that spell its value. *)
Lemma hex_byte_value (x : byte) :
  exists hi lo d1 d2,
    hex_byte x = String hi (String lo "") /\
    hex_value hi = Some d1 /\ hex_value lo = Some d2 /\
    (16 * d1 + d2)%N = Byte.to_N x.
Proof.
  destruct x; do 4 eexists; (split; [reflexivity|]);
    (split; [reflexivity|]); (split; [reflexivity|]); reflexivity.
Qed.

(** ** The terminal printer *)

(** C8. [print_during_input(text)] (the spec's insert_above_prompt) makes
    exactly one write on standard output followed by one flush, and the
    written text is, in this order: save cursor, newline, cursor up one
    line, insert a blank line, the text, newline, restore cursor, cursor
    down one line. *)
Theorem print_during_input_sequence (text : string) :
  print_during_input text =
  [Write Stdout
     (encode [SaveCursor; NewLine; CursorUp; InsertLine;
              Put text; NewLine; RestoreCursor; CursorDown]);
   Flush Stdout].
Proof.
  unfold print_during_input, during_input_text.
  cbn [encode encode_op]; unfold CSI.
  rewrite !append_assoc, append_nil_r. reflexivity.
Qed.

(** [print_over_input(text)] (the spec's replace_prompt): one write and
    one flush; carriage return, erase line, the text, newline. *)
Lemma print_over_input_sequence (text : string) :
  print_over_input text =
  [Write Stdout (encode [ColumnStart; EraseLine; Put text; NewLine]);
   Flush Stdout].
Proof.
  unfold print_over_input, over_input_text.
  cbn [encode encode_op]; unfold CSI.
  rewrite ?append_assoc, ?append_nil_r. reflexivity.
Qed.

(** ** The receiver thread *)

Lemma print_message_no_kill (m : message) (sig : signal_t) :
  ~ In (Kill sig) (print_message m).
Proof.
  destruct m; simpl; intros [H|[H|[]]]; discriminate H.
Qed.

Lemma flat_map_print_message_no_kill (l : list message) (sig : signal_t) :
  ~ In (Kill sig) (flat_map print_message l).
Proof.
  intros H. apply in_flat_map in H. destruct H as (m & _ & H).
  exact (print_message_no_kill m sig H).
Qed.

(** C7. For every incoming message the receiver loop calls
    [print_during_input] once, in arrival order, on the line "< <text>"
    for a text message and "< (binary) <hex>" for a binary one, the
    payload hex-encoded; whatever follows the loop writes nothing. *)
Theorem receiver_renders_each_message
    (platform : string) (incoming : list message) (is_set : bool) :
  exists tail,
    print_incoming_messages platform incoming is_set =
    (flat_map
       (fun m => print_during_input
                   match m with
                   | Text text => "< " ++ text
                   | Binary payload => "< (binary) " ++ hex payload
                   end)
       incoming ++ tail)%list
    /\ written Stdout tail = "" /\ written Stderr tail = "".
Proof.
  exists (after_messages platform is_set).
  split.
  - unfold print_incoming_messages. f_equal.
    induction incoming as [|m l IH]; [reflexivity|].
    cbn [flat_map]. rewrite IH. f_equal. now destruct m.
  - unfold after_messages. now destruct is_set.
Qed.

(** C10. Classification looks only at whether the item is a [str]: an
    item that is not one is a bytes value and is shown through [hex()]
    behind the "(binary)" marker; the hex part is empty exactly for the
    empty payload, so an empty binary message is shown as "< (binary) ". *)
Theorem binary_classification (m : message) :
  (if isinstance_str m
   then exists text, m = Text text /\
          print_message m = print_during_input ("< " ++ text)
   else exists payload, m = Binary payload /\
          print_message m = print_during_input ("< (binary) " ++ hex payload) /\
          (hex payload = "" <-> payload = []))
  /\ print_message (Binary []) = print_during_input "< (binary) ".
Proof.
  split; [|reflexivity].
  destruct m as [text|payload]; simpl.
  - exists text. now split.
  - exists payload. repeat split; try apply hex_empty_iff; auto.
Qed.

(** C2. When the iteration over the connection has ended, the receiver
    sends the interrupt signal to the process if and only if the flag
    reads unset; with the flag set, the thread does nothing more. *)
Theorem receiver_interrupt_iff_unset
    (platform : string) (incoming : list message) (is_set : bool) :
  ((exists sig, In (Kill sig) (print_incoming_messages platform incoming is_set))
   <-> is_set = false)
  /\ print_incoming_messages platform incoming is_set =
     (flat_map print_message incoming
        ++ if is_set then [] else [Kill (ctrl_c platform)])%list.
Proof.
  unfold print_incoming_messages, after_messages.
  destruct is_set; simpl; split; try reflexivity.
  - split; [|discriminate].
    intros [sig H]. rewrite app_nil_r in H.
    now apply flat_map_print_message_no_kill in H.
  - split; [reflexivity|]. intros _.
    exists (ctrl_c platform). apply in_or_app. right. now left.
Qed.

(** ** The input loop *)

Import Chars.

Lemma input_loop_prompts_first (script : list stdin_step) :
  exists t, fst (input_loop script) = Input "> " :: t.
Proof.
  destruct script as [|[s [|e]|] rest]; simpl; eauto.
  destruct (input_loop rest); simpl; eauto.
Qed.

Lemma input_loop_lines (lines : list string) (rest : list stdin_step) :
  input_loop (map (fun l => Line l SendOk) lines ++ rest) =
  ((flat_map (fun l => [Input "> "; Send l]) lines
      ++ fst (input_loop rest))%list,
   snd (input_loop rest)).
Proof.
  induction lines as [|l lines IH]; simpl.
  - now destruct (input_loop rest).
  - rewrite IH. reflexivity.
Qed.

(** C9. Every line read from standard input, the empty line included,
    is passed unchanged to [send] as the very next action, and once the
    send has returned the loop prompts again. *)
Theorem input_loop_sends_each_line
    (lines : list string) (s : string) (r : send_result)
    (rest : list stdin_step) :
  fst (input_loop (map (fun l => Line l SendOk) lines ++ Line s r :: rest)) =
  (flat_map (fun l => [Input "> "; Send l]) lines
     ++ Input "> " :: Send s
     :: match r with
        | SendOk => fst (input_loop rest)
        | SendRaises _ => []
        end)%list
  /\ exists t, fst (input_loop rest) = Input "> " :: t.
Proof.
  split; [|apply input_loop_prompts_first].
  rewrite input_loop_lines. cbn [fst]. f_equal.
  destruct r; simpl; [|reflexivity].
  now destruct (input_loop rest).
Qed.

(** ** Termination of the input loop *)

Lemma session_caught (script : list stdin_step) (c : connection) :
  caught (snd (input_loop script)) = true ->
  session script c =
  match close_status c with
  | Some line =>
      ((ThreadStart :: fst (input_loop script)
          ++ [StopSet; Close] ++ print_over_input line ++ [ThreadJoin])%list,
       Returned)
  | None =>
      ((ThreadStart :: fst (input_loop script) ++ [StopSet; Close])%list,
       Uncaught AssertionError)
  end.
Proof.
  unfold session, on_interrupt.
  destruct (input_loop script) as [t e]; simpl. intros ->.
  destruct (close_status c); reflexivity.
Qed.

Lemma session_uncaught (script : list stdin_step) (c : connection) :
  caught (snd (input_loop script)) = false ->
  session script c =
  (ThreadStart :: fst (input_loop script), Uncaught (snd (input_loop script))).
Proof.
  unfold session.
  destruct (input_loop script) as [t e]; simpl. now intros ->.
Qed.

(** C5. When the input loop ends by ^C or ^D, [main] sets the flag,
    calls [close()], and then shows the close status through
    [print_over_input] as "Connection closed: <code> <reason>.": carriage
    return, erase line, the text, newline, in one flushed write; the
    receiver is joined last. *)
Theorem final_status_line
    (script : list stdin_step) (c : connection) (code : Z) (reason : string) :
  caught (snd (input_loop script)) = true ->
  close_code c = Some code ->
  close_reason c = Some reason ->
  session script c =
  ((ThreadStart :: fst (input_loop script)
      ++ [StopSet; Close;
          Write Stdout
            (encode [ColumnStart; EraseLine;
                     Put ("Connection closed: " ++ str_int code ++ " "
                            ++ reason ++ ".");
                     NewLine]);
          Flush Stdout;
          ThreadJoin])%list,
   Returned).
Proof.
  intros Hc Hcode Hreason.
  rewrite (session_caught _ _ Hc).
  unfold close_status. rewrite Hcode, Hreason.
  rewrite print_over_input_sequence.
  unfold Close_str. rewrite append_assoc. reflexivity.
Qed.

Lemma final_status_line_witness :
  caught (snd (input_loop [Line "hello" SendOk])) = true /\
  session [Line "hello" SendOk]
          {| close_code := Some 1000%Z; close_reason := Some "bye" |} =
  ([ThreadStart; Input "> "; Send "hello"; Input "> "; StopSet; Close;
    Write Stdout
      (encode [ColumnStart; EraseLine;
               Put "Connection closed: 1000 bye."; NewLine]);
    Flush Stdout; ThreadJoin],
   Returned).
Proof.
  split; [reflexivity|].
  exact (final_status_line [Line "hello" SendOk]
           {| close_code := Some 1000%Z; close_reason := Some "bye" |}
           1000%Z "bye" eq_refl eq_refl eq_refl).
Defined.

(** C6. Past [close()], both [close_code] and [close_reason] must be set:
    [main] goes on to the status line and returns exactly when they are,
    and otherwise stops right after [close()] with an [AssertionError]
    that nothing catches. *)
Theorem close_status_asserted (script : list stdin_step) (c : connection) :
  caught (snd (input_loop script)) = true ->
  (snd (session script c) = Returned
   <-> close_code c <> None /\ close_reason c <> None)
  /\ (close_code c = None \/ close_reason c = None ->
      session script c =
      ((ThreadStart :: fst (input_loop script) ++ [StopSet; Close])%list,
       Uncaught AssertionError)).
Proof.
  intros Hc. rewrite (session_caught _ _ Hc). unfold close_status.
  destruct (close_code c) as [code|], (close_reason c) as [reason|];
    cbn [snd]; split.
  all: try (split; [intros _; split; discriminate | reflexivity]).
  all: try (split; [discriminate | intros [H1 H2]; congruence]).
  all: try (intros [H|H]; discriminate H).
  all: try reflexivity.
Qed.

Lemma close_status_asserted_witness :
  caught (snd (input_loop [Interrupt])) = true /\
  session [Interrupt] {| close_code := None; close_reason := Some "" |} =
  ([ThreadStart; Input "> "; StopSet; Close], Uncaught AssertionError).
Proof.
  split; [reflexivity|].
  apply (close_status_asserted [Interrupt]
           {| close_code := None; close_reason := Some "" |} eq_refl).
  left; reflexivity.
Defined.

(** ** A send that fails *)

(** C3, as the code has it.  A send that raises anything other than
    [KeyboardInterrupt] or [EOFError] ends the input loop: nothing is
    prompted or sent after it.  The [except] clause does not apply, so
    the exception leaves [main]: the flag is not set, [close()] is not
    called, no status line is written and the receiver is not joined. *)
Theorem send_failure_leaves_main
    (lines : list string) (s : string) (e : exn)
    (rest : list stdin_step) (c : connection) :
  caught e = false ->
  session (map (fun l => Line l SendOk) lines
             ++ Line s (SendRaises e) :: rest) c =
  ((ThreadStart :: flat_map (fun l => [Input "> "; Send l]) lines
      ++ [Input "> "; Send s])%list,
   Uncaught e)
  /\ ~ In StopSet (fst (session (map (fun l => Line l SendOk) lines
                                   ++ Line s (SendRaises e) :: rest) c))
  /\ ~ In Close (fst (session (map (fun l => Line l SendOk) lines
                                 ++ Line s (SendRaises e) :: rest) c))
  /\ ~ In ThreadJoin (fst (session (map (fun l => Line l SendOk) lines
                                      ++ Line s (SendRaises e) :: rest) c)).
Proof.
  intros He.
  assert (Hs : session (map (fun l => Line l SendOk) lines
                          ++ Line s (SendRaises e) :: rest) c =
               ((ThreadStart :: flat_map (fun l => [Input "> "; Send l]) lines
                   ++ [Input "> "; Send s])%list,
                Uncaught e)).
  { rewrite session_uncaught; rewrite input_loop_lines; simpl; auto. }
  rewrite Hs. cbn [fst].
  assert (Hin : forall a,
             In a (ThreadStart :: flat_map (fun l => [Input "> "; Send l]) lines
                     ++ [Input "> "; Send s])%list ->
             a = ThreadStart \/ (exists p, a = Input p) \/ (exists l, a = Send l)).
  { intros a [H|H]; [now left|right].
    apply in_app_or in H. destruct H as [H|H].
    - apply in_flat_map in H. destruct H as (l & _ & [H|[H|[]]]); eauto.
    - destruct H as [H|[H|[]]]; eauto. }
  repeat split; auto; intros H; apply Hin in H;
    destruct H as [H|[[p H]|[l H]]]; discriminate H.
Qed.

Lemma send_failure_leaves_main_witness :
  caught ConnectionClosed = false /\
  session [Line "hello" (SendRaises ConnectionClosed)]
          {| close_code := Some 1000%Z; close_reason := Some "bye" |} =
  ([ThreadStart; Input "> "; Send "hello"], Uncaught ConnectionClosed).
Proof.
  split; [reflexivity|].
  exact (proj1 (send_failure_leaves_main [] "hello" ConnectionClosed []
                  {| close_code := Some 1000%Z; close_reason := Some "bye" |}
                  eq_refl)).
Defined.

(** C3, as stated, fails: with the send raising [ConnectionClosed], the
    steps of the interrupt path (set the flag, close, join) are not all
    taken; in fact none is. *)
Lemma send_failure_not_handled_as_interrupt :
  ~ (In StopSet
       (fst (session [Line "hello" (SendRaises ConnectionClosed)]
               {| close_code := Some 1000%Z; close_reason := Some "bye" |}))
     /\ In Close
          (fst (session [Line "hello" (SendRaises ConnectionClosed)]
                  {| close_code := Some 1000%Z; close_reason := Some "bye" |}))
     /\ In ThreadJoin
          (fst (session [Line "hello" (SendRaises ConnectionClosed)]
                  {| close_code := Some 1000%Z; close_reason := Some "bye" |}))).
Proof.
  simpl. intros [[H|[H|[H|[]]]] _]; discriminate H.
Qed.

(** ** A connection that cannot be opened *)

Lemma written_enable_vt100_stdout (e : env) :
  written Stdout (enable_vt100 e) = "".
Proof.
  unfold enable_vt100.
  destruct (String.eqb (platform e) "win32"); [|reflexivity].
  now destruct (vt100_error e).
Qed.

Lemma enable_vt100_no_thread (e : env) : ~ In ThreadStart (enable_vt100 e).
Proof.
  unfold enable_vt100.
  destruct (String.eqb (platform e) "win32"); [|intros []].
  destruct (vt100_error e); [|intros []].
  intros [H|[H|[]]]; discriminate H.
Qed.

(** C4, as the code has it.  When [connect(uri)] raises, [main] prints
    "Failed to connect to <uri>: <error>." with [print], that is on
    standard output, and exits with code 1; no thread is started and
    nothing about the failure goes to standard error. *)
Theorem connect_failure_reported (e : env) (uri exc : string) :
  args_version e = false ->
  args_uri e = Some uri ->
  connect e uri = inl exc ->
  main e =
  ((enable_vt100 e
      ++ [Connect uri;
          Write Stdout ("Failed to connect to " ++ uri ++ ": " ++ exc ++ ".");
          Write Stdout (chr LINE_FEED)])%list,
   SysExit 1)
  /\ written Stdout (fst (main e)) =
     "Failed to connect to " ++ uri ++ ": " ++ exc ++ "." ++ chr LINE_FEED
  /\ written Stderr (fst (main e)) = written Stderr (enable_vt100 e)
  /\ ~ In ThreadStart (fst (main e)).
Proof.
  intros Hv Hu Hc.
  assert (Hm : main e =
               ((enable_vt100 e
                   ++ [Connect uri;
                       Write Stdout
                         ("Failed to connect to " ++ uri ++ ": " ++ exc ++ ".");
                       Write Stdout (chr LINE_FEED)])%list,
                SysExit 1)).
  { unfold main. rewrite Hv, Hu, Hc. unfold print.
    rewrite <- app_assoc. reflexivity. }
  rewrite Hm. cbn [fst]. repeat split.
  - rewrite written_app, written_enable_vt100_stdout. cbn [written].
    rewrite append_nil_r.
    simpl. rewrite !append_assoc. simpl. rewrite !append_assoc. reflexivity.
  - rewrite written_app. cbn [written]. now rewrite append_nil_r.
  - intros H. apply in_app_or in H. destruct H as [H|H].
    + now apply enable_vt100_no_thread in H.
    + destruct H as [H|[H|[H|[]]]]; discriminate H.
Qed.

Lemma connect_failure_reported_witness :
  main {| platform := "linux"; websockets_version := "13.0";
          args_version := false; args_uri := Some "ws://localhost:8765";
          vt100_error := None;
          connect := fun _ => inl "[Errno 111] Connection refused";
          stdin := [] |} =
  ([Connect "ws://localhost:8765";
    Write Stdout
      "Failed to connect to ws://localhost:8765: [Errno 111] Connection refused.";
    Write Stdout (chr LINE_FEED)],
   SysExit 1).
Proof.
  exact (proj1 (connect_failure_reported
                  {| platform := "linux"; websockets_version := "13.0";
                     args_version := false;
                     args_uri := Some "ws://localhost:8765";
                     vt100_error := None;
                     connect := fun _ => inl "[Errno 111] Connection refused";
                     stdin := [] |}
                  "ws://localhost:8765" "[Errno 111] Connection refused"
                  eq_refl eq_refl eq_refl)).
Defined.

(** C4, as stated, fails: after a failed connection attempt standard
    error has not received the message. *)
Lemma connect_failure_not_on_stderr :
  ~ (exists rest,
       written Stderr
         (fst (main {| platform := "linux"; websockets_version := "13.0";
                       args_version := false;
                       args_uri := Some "ws://localhost:8765";
                       vt100_error := None;
                       connect := fun _ => inl "[Errno 111] Connection refused";
                       stdin := [] |})) =
       "Failed to connect to ws://localhost:8765: [Errno 111] Connection refused."
         ++ rest).
Proof.
  intros [rest H]. vm_compute in H. discriminate H.
Qed.

(** ** The flag and the close, under every interleaving *)

Import Threads.

Lemma precedes_nil (a b : event) : precedes a b [].
Proof.
  intros pre post H. destruct pre; discriminate H.
Qed.

Lemma precedes_app_seen (a b : event) (t l : list event) :
  precedes a b t -> In a t -> precedes a b (t ++ l).
Proof.
  intros Hp Ha pre post H.
  apply app_eq_app in H. destruct H as [k [[H1 H2]|[H1 H2]]].
  - destruct k as [|x k].
    + rewrite app_nil_r in H1. now subst.
    + injection H2 as <- _. apply (Hp pre k). exact H1.
  - subst pre. apply in_or_app. now left.
Qed.

Lemma precedes_app_absent (a b : event) (t l : list event) :
  precedes a b t -> ~ In b l -> precedes a b (t ++ l).
Proof.
  intros Hp Hb pre post H.
  apply app_eq_app in H. destruct H as [k [[H1 H2]|[H1 H2]]].
  - destruct k as [|x k].
    + simpl in H2. exfalso. apply Hb. rewrite <- H2. now left.
    + injection H2 as <- _. apply (Hp pre k). exact H1.
  - exfalso. apply Hb. rewrite H2. apply in_or_app. right. now left.
Qed.

Lemma in_map_pair_thread (th th' : thread) (a : action) (l : trace) :
  In (th, a) (map (pair th') l) -> th = th' /\ In a l.
Proof.
  intros H. apply in_map_iff in H. destruct H as (x & E & H).
  injection E as <- <-. now split.
Qed.

Lemma invariant_initial : invariant initial [].
Proof.
  unfold invariant; simpl.
  repeat split; try discriminate; try (intros ? []); try apply precedes_nil.
Qed.

Ltac trace_facts :=
  repeat match goal with
  | H : In _ (_ ++ _)%list |- _ => apply in_app_or in H; destruct H as [H|H]
  | H : In (_, _) (map (pair _) _) |- _ =>
      apply in_map_pair_thread in H; destruct H as [? H]
  | H : In _ (print_message ?m) |- _ =>
      destruct m; simpl in H
  | H : In _ (print_over_input _) |- _ => simpl in H
  | H : In _ (_ :: _) |- _ => destruct H as [H|H]
  | H : In _ [] |- _ => destruct H
  | H : (_, _) = (_, _) |- _ => discriminate H
  | H : _ \/ _ |- _ => destruct H as [H|H]
  | H : False |- _ => destruct H
  | H : ReceiverThread = MainThread |- _ => discriminate H
  | H : _ = Kill _ |- _ => discriminate H
  end.

Ltac keep_order :=
  first
    [ apply precedes_app_absent;
      [assumption | intro; trace_facts; congruence]
    | apply precedes_app_seen; [assumption | now auto] ].

Lemma invariant_step (platform : string) (c c' : config)
      (t l : list event) :
  invariant c t -> step platform c l c' -> invariant c' (t ++ l).
Proof.
  unfold invariant.
  intros (Hcs & Hcl & Hst & Hpc & Hord & His & Hk & Hkt) Hstep.
  inversion Hstep; subst; unfold iteration_ended in *;
    cbn [shared mpc rpc] in *;
    cbn [set_stop local_close peer_close raise_sigint take_sigint
         stop closed close_called remote_closed sigint] in *.
  all: repeat split.
  all: try discriminate.
  all: try keep_order.
  all: try (intros; apply in_or_app; (now left; auto) || (now right; left)).
  all: try (intros; trace_facts; eauto; congruence).
  all: try (intros; auto; congruence).
  all: try tauto.
  - (* an interrupt never lands the main thread on line 153 *)
    intros ->. destruct pc; simpl in *; discriminate.
  - (* the receiver found the flag unset: the close was not local *)
    intros _. destruct (Hcl (His eq_refl)) as [Hlocal|Hremote]; [|assumption].
    apply Hcs in Hlocal. congruence.
Qed.

Lemma run_invariant (platform : string) (t : list event) (c : config) :
  run platform initial t c -> invariant c t.
Proof.
  induction 1 as [|t c' l c'' _ IH Hstep].
  - apply invariant_initial.
  - exact (invariant_step platform c' c'' t l IH Hstep).
Qed.

(** C1. In every execution of the two threads, whatever the scheduling
    and whatever the peer and the user do, each [websocket.close()] of
    the main thread comes after its [stop.set()]; the flag is set in
    every state in which [close()] has been invoked; and, as long as the
    close is not the peer's, the receiver never reaches [os.kill]: it
    reads the flag as set and returns without sending the signal. *)
Theorem stop_set_before_close
    (platform : string) (t : list event) (c : config) :
  run platform initial t c ->
  precedes (MainThread, StopSet) (MainThread, Close) t
  /\ (close_called (shared c) = true -> stop (shared c) = true)
  /\ (remote_closed (shared c) = false ->
      rpc c <> AtKill /\ forall sig, ~ In (ReceiverThread, Kill sig) t).
Proof.
  intros Hrun. apply run_invariant in Hrun.
  destruct Hrun as (Hcs & _ & _ & _ & Hord & _ & Hk & Hkt).
  split; [exact Hord|]. split; [exact Hcs|].
  intros Hremote. split.
  - intros Hpc. apply Hk in Hpc. congruence.
  - intros sig Hin. apply Hkt in Hin. congruence.
Qed.

(** ^D at the prompt while the peer stays silent: the main thread sets
    the flag and closes, the receiver sees its iteration end, reads the
    flag and returns. *)
Lemma local_shutdown_run :
  run "linux" initial
      [(MainThread, Input "> "); (MainThread, StopSet); (MainThread, Close)]
      {| mpc := AtStatus; rpc := ReceiverReturned;
         shared := {| stop := true; closed := true; close_called := true;
                      remote_closed := false; sigint := false |} |}.
Proof.
  pose (w0 := shared initial).
  pose (w1 := set_stop w0).
  pose (w2 := local_close w1).
  refine (run_snoc _ _ [(MainThread, Input "> "); (MainThread, StopSet);
                        (MainThread, Close)]
            {| mpc := AtStatus; rpc := AtIsSet; shared := w2 |} [] _ _
            (receiver_set _ AtStatus w2 eq_refl)).
  refine (run_snoc _ _ [(MainThread, Input "> "); (MainThread, StopSet);
                        (MainThread, Close)]
            {| mpc := AtStatus; rpc := AtNext; shared := w2 |} [] _ _
            (receiver_end _ AtStatus w2 eq_refl)).
  refine (run_snoc _ _ [(MainThread, Input "> "); (MainThread, StopSet)]
            {| mpc := AtClose; rpc := AtNext; shared := w1 |}
            [(MainThread, Close)] _ _ (main_close _ AtNext w1)).
  refine (run_snoc _ _ [(MainThread, Input "> ")]
            {| mpc := AtStopSet; rpc := AtNext; shared := w0 |}
            [(MainThread, StopSet)] _ _ (main_stop_set _ AtNext w0)).
  refine (run_snoc _ _ [] initial [(MainThread, Input "> ")] _ _
            (main_eof _ AtNext w0)).
  apply run_nil.
Qed.

Lemma stop_set_before_close_witness :
  run "linux" initial
      [(MainThread, Input "> "); (MainThread, StopSet); (MainThread, Close)]
      {| mpc := AtStatus; rpc := ReceiverReturned;
         shared := {| stop := true; closed := true; close_called := true;
                      remote_closed := false; sigint := false |} |}
  /\ precedes (MainThread, StopSet) (MainThread, Close)
           [(MainThread, Input "> "); (MainThread, StopSet);
            (MainThread, Close)]
  /\ (true = true -> true = true)
  /\ (false = false ->
      ReceiverReturned <> AtKill /\
      forall sig,
        ~ In (ReceiverThread, Kill sig)
             [(MainThread, Input "> "); (MainThread, StopSet);
              (MainThread, Close)]).
Proof.
  split; [exact local_shutdown_run|].
  exact (stop_set_before_close "linux" _ _ local_shutdown_run).
Defined.

(** * Further properties *)

(** ** The console mode *)

Import Console.

Lemma c_uint_range (z : Z) : (0 <= c_uint z < 2 ^ 32)%Z.
Proof.
  unfold c_uint. apply Z.mod_pos_bound. reflexivity.
Qed.

Lemma buffer_read_back (o : byteorder) (z : Z) :
  int_from_bytes (buffer o (c_uint z)) o = c_uint z.
Proof.
  pose proof (c_uint_range z) as R.
  set (v := c_uint z) in *.
  assert (E : (((v / 16777216 mod 256 * 256 + v / 65536 mod 256) * 256
                + v / 256 mod 256) * 256 + v mod 256 = v)%Z).
  { change (2 ^ 32)%Z with 4294967296%Z in R.
    Z.div_mod_to_equations. lia. }
  destruct o; unfold int_from_bytes, buffer, le_bytes.
  - cbn [rev app from_big]. rewrite Z.mul_0_l, Z.add_0_l. exact E.
  - rewrite ?rev_involutive. cbn [rev app from_big].
    rewrite Z.mul_0_l, Z.add_0_l. exact E.
Qed.

(** X1. The buffer of a [c_uint] is four bytes, and reading them back
    with the byte order they were laid out in gives the value held, on
    either byte order. *)
Theorem int_from_bytes_buffer (o : byteorder) (z : Z) :
  int_from_bytes (buffer o (c_uint z)) o = c_uint z
  /\ List.length (buffer o (c_uint z)) = 4
  /\ Forall (fun b => (0 <= b < 256)%Z) (buffer o (c_uint z)).
Proof.
  split; [apply buffer_read_back|].
  assert (F : Forall (fun b => (0 <= b < 256)%Z) (le_bytes (c_uint z))).
  { unfold le_bytes. repeat constructor; apply Z.mod_pos_bound; reflexivity. }
  destruct o; cbn [buffer]; split; try reflexivity; try exact F.
  apply Forall_rev. exact F.
Qed.

Lemma new_mode_lor (o : byteorder) (stored : Z) :
  new_mode o stored = Z.lor (c_uint stored) 4.
Proof.
  unfold new_mode. rewrite buffer_read_back.
  unfold ENABLE_VIRTUAL_TERMINAL_PROCESSING.
  pose proof (c_uint_range stored) as R.
  unfold c_uint at 1. apply Z.bits_inj'. intros i Hi.
  destruct (Z.lt_ge_cases i 32) as [Hlt|Hge].
  - rewrite Z.mod_pow2_bits_low by lia. reflexivity.
  - rewrite Z.mod_pow2_bits_high by lia.
    rewrite Z.lor_spec.
    unfold c_uint. rewrite Z.mod_pow2_bits_high by lia.
    change 4%Z with (2 ^ 2)%Z. rewrite Z.pow2_bits_eqb by lia.
    symmetry. apply orb_false_iff. split; [reflexivity|].
    apply Z.eqb_neq. lia.
Qed.

(** X2. The mode handed to [SetConsoleMode] is the current mode with
    bit 2 (ENABLE_VIRTUAL_TERMINAL_PROCESSING) switched on and every
    other bit as it was; it fits in 32 bits and does not depend on the
    byte order. *)
Theorem new_mode_bits (o : byteorder) (stored : Z) (i : Z) :
  Z.testbit (new_mode o stored) i =
  (if Z.eqb i 2 then true else Z.testbit (c_uint stored) i)
  /\ (0 <= new_mode o stored < 2 ^ 32)%Z
  /\ new_mode o stored = new_mode little stored.
Proof.
  split; [|split].
  - rewrite new_mode_lor, Z.lor_spec.
    destruct (Z.eqb_spec i 2) as [->|Hne].
    + apply orb_true_r.
    + destruct (Z.lt_ge_cases i 0) as [Hneg|Hpos].
      * rewrite !Z.testbit_neg_r by lia. reflexivity.
      * change 4%Z with (2 ^ 2)%Z. rewrite Z.pow2_bits_eqb by lia.
        replace (Z.eqb 2 i) with false by (symmetry; apply Z.eqb_neq; lia).
        apply orb_false_r.
  - unfold new_mode. apply c_uint_range.
  - now rewrite !new_mode_lor.
Qed.

(** X3. Switching the bit on is idempotent: a mode that results from
    [new_mode] is left as it is by applying [new_mode] again. *)
Theorem new_mode_idempotent (o o' : byteorder) (stored : Z) :
  new_mode o' (new_mode o stored) = new_mode o stored.
Proof.
  rewrite (new_mode_lor o'), (new_mode_lor o).
  assert (R : c_uint (Z.lor (c_uint stored) 4) = Z.lor (c_uint stored) 4).
  { rewrite <- (new_mode_lor o stored).
    unfold c_uint at 1. apply Z.mod_small.
    unfold new_mode. apply c_uint_range. }
  rewrite R. rewrite <- Z.lor_assoc. reflexivity.
Qed.


(** ** Counting actions *)

Import Observe.

Lemma count_app (p : action -> bool) (t u : trace) :
  count p (t ++ u)%list = count p t + count p u.
Proof.
  unfold count. now rewrite filter_app, length_app.
Qed.

Lemma count_none (p : action -> bool) (t : trace) :
  Forall (fun a => p a = false) t -> count p t = 0.
Proof.
  unfold count. induction 1 as [|a t Ha _ IH]; simpl; [reflexivity|].
  now rewrite Ha.
Qed.

Lemma count_zero_not_in (p : action -> bool) (t : trace) (a : action) :
  count p t = 0 -> p a = true -> ~ In a t.
Proof.
  unfold count. intros Hc Hp Hin.
  assert (H : In a (filter p t)) by (apply filter_In; now split).
  destruct (filter p t); [destruct H | discriminate Hc].
Qed.

(** ** The input loop, further *)

Lemma input_loop_actions (script : list stdin_step) :
  Forall (fun a => is_input a || is_send a = true) (fst (input_loop script)).
Proof.
  induction script as [|[s [|e]|] rest IH]; simpl.
  - repeat constructor.
  - destruct (input_loop rest) as [t x]. simpl in *. repeat constructor. exact IH.
  - repeat constructor.
  - repeat constructor.
Qed.

(** X5. The payloads sent are the lines of standard input, in the order
    typed, each once, up to the point where the loop ends: the list of
    sent payloads is a prefix of the list of lines. *)
Theorem sent_prefix_of_typed (script : list stdin_step) :
  exists unsent, typed script = (sent (fst (input_loop script)) ++ unsent)%list.
Proof.
  induction script as [|[s [|e]|] rest IH]; simpl.
  - now exists [].
  - destruct IH as [unsent IH]. destruct (input_loop rest) as [t x].
    simpl in *. exists unsent. now rewrite IH.
  - now exists (typed rest).
  - now exists (typed rest).
Qed.

(** X6. The loop never sends without having prompted: it prompts once
    for every send, and at most once more. *)
Theorem prompts_and_sends (script : list stdin_step) :
  count is_send (fst (input_loop script))
  <= count is_input (fst (input_loop script))
  <= S (count is_send (fst (input_loop script))).
Proof.
  unfold count.
  induction script as [|[s [|e]|] rest IH]; simpl; try lia.
  destruct (input_loop rest) as [t x]. simpl in *. lia.
Qed.

(** ** A whole session *)

Lemma session_shape (script : list stdin_step) (c : connection) :
  exists tail,
    fst (session script c) =
    (ThreadStart :: fst (input_loop script) ++ tail)%list
    /\ (tail = []
        \/ tail = [StopSet; Close]
        \/ exists line,
             tail = ([StopSet; Close] ++ print_over_input line
                       ++ [ThreadJoin])%list).
Proof.
  destruct (caught (snd (input_loop script))) eqn:Hc.
  - rewrite (session_caught _ _ Hc).
    destruct (close_status c) as [line|]; cbn [fst]; eauto 6.
  - rewrite (session_uncaught _ _ Hc). cbn [fst].
    exists []. rewrite app_nil_r. auto.
Qed.

Lemma session_actions (script : list stdin_step) (c : connection) :
  Forall (fun a => session_action a = true) (fst (session script c)).
Proof.
  destruct (session_shape script c) as (tail & -> & Ht).
  constructor; [reflexivity|]. apply Forall_app. split.
  - eapply Forall_impl; [|apply input_loop_actions].
    intros [] H; try discriminate H; reflexivity.
  - destruct Ht as [->|[->|[line ->]]]; repeat constructor.
Qed.

(** X7. In a session every prompt and every send comes before the flag
    is set and the connection closed: once [main] has left the loop it
    never prompts or sends again. *)
Theorem nothing_sent_after_shutdown (script : list stdin_step) (c : connection) :
  exists tail,
    fst (session script c) =
    (ThreadStart :: fst (input_loop script) ++ tail)%list
    /\ count is_send tail = 0 /\ count is_input tail = 0
    /\ count is_stop_set (fst (input_loop script)) = 0
    /\ count is_close (fst (input_loop script)) = 0.
Proof.
  destruct (session_shape script c) as (tail & E & Ht).
  exists tail. split; [exact E|].
  repeat split.
  1,2: destruct Ht as [->|[->|[line ->]]]; reflexivity.
  all: apply count_none; eapply Forall_impl; [|apply input_loop_actions];
    intros [] H; try discriminate H; reflexivity.
Qed.




(** ** The whole of [main] *)


Lemma count_connect_session (script : list stdin_step) (c : connection) :
  count is_connect (fst (session script c)) = 0.
Proof.
  apply count_none. eapply Forall_impl; [|apply session_actions].
  intros [[] s|[]| | | | | | | |] H; try discriminate H; reflexivity.
Qed.

Lemma count_connect_enable_vt100 (e : env) :
  count is_connect (enable_vt100 e) = 0.
Proof.
  unfold enable_vt100.
  destruct (String.eqb (platform e) "win32"); [|reflexivity].
  now destruct (vt100_error e).
Qed.


(** X11. [connect] is called at most once, with the uri of the command
    line and nothing else: never under [--version], never without a
    uri, and never a second time. *)
Theorem main_connects_once (e : env) :
  count is_connect (fst (main e)) =
  (if args_version e then 0
   else match args_uri e with Some _ => 1 | None => 0 end)
  /\ forall uri, In (Connect uri) (fst (main e)) ->
                 args_version e = false /\ args_uri e = Some uri.
Proof.
  unfold main.
  destruct (args_version e); cbn [fst].
  - split; [reflexivity|]. intros uri [H|[H|[]]]; discriminate H.
  - destruct (args_uri e) as [u|]; cbn [fst]; [|split; [reflexivity|intros ? []]].
    assert (Hin : forall uri t,
               count is_connect t = 0 ->
               In (Connect uri) ((enable_vt100 e ++ [Connect u]) ++ t)%list ->
               false = false /\ Some u = Some uri).
    { intros uri t Ht H. split; [reflexivity|].
      apply in_app_or in H. destruct H as [H|H].
      - apply in_app_or in H. destruct H as [H|[H|[]]].
        + exfalso. revert H.
          apply (count_zero_not_in is_connect); auto using count_connect_enable_vt100.
        + now injection H as ->.
      - exfalso. revert H. now apply (count_zero_not_in is_connect). }
    destruct (connect e u) as [exc|c]; cbn [fst].
    + split.
      * rewrite !count_app, count_connect_enable_vt100. reflexivity.
      * intros uri H. apply Hin in H; [|reflexivity].
        destruct H as [_ H]. now injection H as ->.
    + destruct (session (stdin e) c) as [t o] eqn:Hs. cbn [fst].
      assert (Ht : count is_connect t = 0).
      { pose proof (count_connect_session (stdin e) c) as H.
        now rewrite Hs in H. }
      split.
      * rewrite !count_app, count_connect_enable_vt100, Ht. reflexivity.
      * intros uri H. apply Hin in H.
        -- destruct H as [_ H]. now injection H as ->.
        -- rewrite count_app, Ht. reflexivity.
Qed.

Lemma main_with_uri (e : env) (uri : string) :
  args_version e = false ->
  args_uri e = Some uri ->
  main e =
  match connect e uri with
  | inl exc =>
      ((enable_vt100 e ++ [Connect uri]
          ++ print ("Failed to connect to " ++ uri ++ ": " ++ exc ++ "."))%list,
       SysExit 1)
  | inr websocket =>
      ((enable_vt100 e ++ [Connect uri]
          ++ print ("Connected to " ++ uri ++ ".")
          ++ fst (session (stdin e) websocket))%list,
       snd (session (stdin e) websocket))
  end.
Proof.
  intros Hv Hu. unfold main. rewrite Hv, Hu.
  destruct (connect e uri) as [exc|c].
  - now rewrite <- app_assoc.
  - destruct (session (stdin e) c) as [t o]. cbn [fst snd].
    now rewrite <- app_assoc.
Qed.



(** X13. A failure of [win_enable_vt100] is not fatal: [main] writes the
    warning to standard error and then goes on exactly as it would have
    without the failure, with the same outcome and the same text on
    standard output. *)
Theorem vt100_failure_not_fatal (e : env) (uri : string) :
  args_version e = false ->
  args_uri e = Some uri ->
  main e =
  ((enable_vt100 e ++ fst (main (without_vt100_error e)))%list,
   snd (main (without_vt100_error e)))
  /\ enable_vt100 (without_vt100_error e) = []
  /\ written Stdout (fst (main e)) =
     written Stdout (fst (main (without_vt100_error e))).
Proof.
  intros Hv Hu.
  assert (Hnone : enable_vt100 (without_vt100_error e) = []).
  { unfold enable_vt100, without_vt100_error. cbn.
    now destruct (String.eqb (platform e) "win32"). }
  assert (Hm : main e =
               ((enable_vt100 e ++ fst (main (without_vt100_error e)))%list,
                snd (main (without_vt100_error e)))).
  { rewrite (main_with_uri e uri Hv Hu).
    rewrite (main_with_uri (without_vt100_error e) uri Hv Hu), Hnone.
    cbn [connect stdin without_vt100_error].
    destruct (connect e uri); reflexivity. }
  split; [exact Hm|]. split; [exact Hnone|].
  rewrite Hm. cbn [fst].
  now rewrite written_app, written_enable_vt100_stdout.
Qed.

Lemma vt100_failure_not_fatal_witness :
  main {| platform := "win32"; websockets_version := "13.0";
          args_version := false; args_uri := Some "ws://localhost:8765";
          vt100_error := Some "unable to set console mode";
          connect := fun _ => inl "refused";
          stdin := [] |} =
  ([Write Stderr
      ("Unable to set terminal to VT100 mode. This is only "
       ++ "supported since Win10 anniversary update. Expect "
       ++ "weird symbols on the terminal." ++ chr LINE_FEED
       ++ "Error: unable to set console mode" ++ chr LINE_FEED);
    Flush Stderr;
    Connect "ws://localhost:8765";
    Write Stdout "Failed to connect to ws://localhost:8765: refused.";
    Write Stdout (chr LINE_FEED)],
   SysExit 1).
Proof.
  exact (proj1 (vt100_failure_not_fatal
                  {| platform := "win32"; websockets_version := "13.0";
                     args_version := false;
                     args_uri := Some "ws://localhost:8765";
                     vt100_error := Some "unable to set console mode";
                     connect := fun _ => inl "refused";
                     stdin := [] |}
                  "ws://localhost:8765" eq_refl eq_refl)).
Defined.




(** ** The receiver thread, further *)

Lemma length_append (a b : string) :
  String.length (a ++ b) = String.length a + String.length b.
Proof.
  induction a as [|x a IH]; simpl; [reflexivity|].
  now rewrite IH.
Qed.

Lemma append_cancel_r (a b c : string) : a ++ c = b ++ c -> a = b.
Proof.
  revert b. induction a as [|x a IH]; intros [|y b] H.
  - reflexivity.
  - apply (f_equal String.length) in H.
    simpl in H. rewrite length_append in H. lia.
  - apply (f_equal String.length) in H.
    simpl in H. rewrite length_append in H. lia.
  - simpl in H. injection H as -> H. f_equal. now apply IH.
Qed.

Lemma hex_byte_inj (x y : byte) : hex_byte x = hex_byte y -> x = y.
Proof.
  intros H.
  destruct (hex_byte_value x) as (h1 & l1 & a1 & b1 & E1 & Ha1 & Hb1 & V1).
  destruct (hex_byte_value y) as (h2 & l2 & a2 & b2 & E2 & Ha2 & Hb2 & V2).
  rewrite E1, E2 in H. injection H as -> ->.
  assert (E : Byte.to_N x = Byte.to_N y) by congruence.
  apply (f_equal Byte.of_N) in E. rewrite !Byte.of_to_N in E.
  now injection E.
Qed.

Lemma hex_inj (b1 b2 : list byte) : hex b1 = hex b2 -> b1 = b2.
Proof.
  revert b2. induction b1 as [|x r IH]; intros [|y r'] H.
  - reflexivity.
  - discriminate H.
  - discriminate H.
  - cbn [hex] in H. unfold hex_byte in H. cbn [append] in H.
    injection H as H1 H2 H3.
    f_equal; [|now apply IH].
    apply hex_byte_inj. unfold hex_byte. now rewrite H1, H2.
Qed.

Lemma during_input_text_inj (s s' : string) :
  during_input_text s = during_input_text s' -> s = s'.
Proof.
  unfold during_input_text. cbn [append chr]. intros H.
  injection H as H. now do 2 apply append_cancel_r in H.
Qed.

Lemma over_input_text_inj (s s' : string) :
  over_input_text s = over_input_text s' -> s = s'.
Proof.
  unfold over_input_text. cbn [append chr]. intros H.
  injection H as H. now apply append_cancel_r in H.
Qed.

Lemma printers_injective_text (s s' : string) :
  print_during_input s = print_during_input s' <-> s = s'.
Proof.
  split; [|now intros ->]. intros H.
  apply during_input_text_inj. unfold print_during_input in H. congruence.
Qed.

(** X15. Both printers lose nothing of their argument: two calls write
    the same thing only if they were given the same text. *)
Theorem printers_injective (s s' : string) :
  (print_during_input s = print_during_input s' <-> s = s')
  /\ (print_over_input s = print_over_input s' <-> s = s').
Proof.
  split; [apply printers_injective_text|].
  split; [|now intros ->]. intros H.
  apply over_input_text_inj. unfold print_over_input in H. congruence.
Qed.

(** X16. Within one kind the display is faithful: two text messages,
    or two binary messages, are shown alike only if they are equal.
    Across kinds it is not: a text message spelling "(binary) " and hex
    digits is shown exactly as the binary message with that payload. *)
Theorem rendering_faithful_within_kind
    (s1 s2 : string) (b1 b2 : list byte) :
  (print_message (Text s1) = print_message (Text s2) <-> s1 = s2)
  /\ (print_message (Binary b1) = print_message (Binary b2) <-> b1 = b2)
  /\ print_message (Text ("(binary) " ++ hex b1)) = print_message (Binary b1).
Proof.
  split; [|split; [|reflexivity]]; (split; [|now intros ->]); intros H;
    apply (proj1 (printers_injective_text _ _)) in H; injection H as H.
  - exact H.
  - now apply hex_inj.
Qed.

Lemma count_flat_map_print_message (p : action -> bool) (l : list message) :
  (forall s, p (Write Stdout s) = p (Write Stdout "")) ->
  count p (flat_map print_message l) =
  List.length l * count p [Write Stdout ""; Flush Stdout].
Proof.
  intros Hp. induction l as [|m l IH]; [reflexivity|].
  cbn [flat_map List.length]. rewrite count_app, IH.
  assert (E : count p (print_message m) =
              count p [Write Stdout ""; Flush Stdout]).
  { unfold count.
    destruct m; cbn [print_message print_during_input filter];
      rewrite (Hp (during_input_text _));
      now destruct (p (Write Stdout "")), (p (Flush Stdout)). }
  rewrite E. generalize (count p [Write Stdout ""; Flush Stdout]) as k.
  intros k. cbn [Nat.mul]. reflexivity.
Qed.

(** X17. The receiver thread does one write and one flush on standard
    output per message and at most one [os.kill]; it does nothing else:
    it never writes to standard error, and never sends, closes or sets
    the flag. *)
Theorem receiver_actions
    (platform : string) (incoming : list message) (is_set : bool) :
  count is_write (print_incoming_messages platform incoming is_set)
  = List.length incoming
  /\ count is_flush (print_incoming_messages platform incoming is_set)
     = List.length incoming
  /\ count is_kill (print_incoming_messages platform incoming is_set) <= 1
  /\ Forall (fun a => a = Flush Stdout
                      \/ (exists s, a = Write Stdout s)
                      \/ a = Kill (ctrl_c platform))
            (print_incoming_messages platform incoming is_set).
Proof.
  unfold print_incoming_messages.
  rewrite !count_app, !count_flat_map_print_message by reflexivity.
  unfold after_messages. repeat split.
  - destruct is_set; unfold count; simpl; lia.
  - destruct is_set; unfold count; simpl; lia.
  - destruct is_set; unfold count; simpl; lia.
  - apply Forall_app. split.
    + apply Forall_flat_map, Forall_forall. intros m _.
      destruct m; cbn [print_message print_during_input];
        (constructor;
         [right; left; eexists; reflexivity
         |constructor; [left; reflexivity | constructor]]).
    + destruct is_set; cbn [negb]; constructor; auto.
Qed.

(** X18. What the receiver prints does not depend on the flag, and the
    output for a sequence of messages is the output for its first part
    followed by the output for the rest. *)
Theorem receiver_output_composes
    (platform : string) (l1 l2 : list message) (b b1 b2 : bool) :
  written Stdout (print_incoming_messages platform (l1 ++ l2) b) =
  written Stdout (print_incoming_messages platform l1 b1)
    ++ written Stdout (print_incoming_messages platform l2 b2).
Proof.
  assert (H : forall l x,
             written Stdout (print_incoming_messages platform l x) =
             written Stdout (flat_map print_message l)).
  { intros l x. unfold print_incoming_messages, after_messages.
    rewrite written_app. destruct x; simpl; now rewrite append_nil_r. }
  rewrite !H, flat_map_app. apply written_app.
Qed.

(** ** The two threads, further *)

Lemma occurrences_app (p : action -> bool) (t l : list event) :
  occurrences p (t ++ l) = occurrences p t + occurrences p l.
Proof.
  unfold occurrences. now rewrite map_app, count_app.
Qed.

Lemma occurrences_cons (p : action -> bool) (x : event) (t : list event) :
  occurrences p (x :: t) = (if p (snd x) then 1 else 0) + occurrences p t.
Proof.
  unfold occurrences, count. simpl. now destruct (p (snd x)).
Qed.

Lemma occurrences_after_stop_le (p : action -> bool) (t : list event) :
  occurrences p (after_stop t) <= occurrences p t.
Proof.
  induction t as [|[th a] t IH]; [reflexivity|].
  rewrite occurrences_cons. destruct a; simpl; lia.
Qed.

Lemma after_stop_none (t : list event) :
  occurrences is_stop_set t = 0 -> after_stop t = [].
Proof.
  induction t as [|[th a] t IH]; [reflexivity|].
  rewrite occurrences_cons. destruct a; simpl; auto; discriminate.
Qed.

Lemma after_stop_quiet (p : action -> bool) (t l : list event) :
  occurrences p (after_stop t) = 0 ->
  occurrences p l = 0 ->
  occurrences p (after_stop (t ++ l)) = 0.
Proof.
  intros Ht Hl. induction t as [|[th a] t IH].
  - pose proof (occurrences_after_stop_le p l). simpl. lia.
  - destruct a; simpl in *; auto.
    rewrite occurrences_app. lia.
Qed.

Lemma orderly_initial : orderly initial [].
Proof.
  unfold orderly; simpl.
  repeat split; intros; auto; try discriminate; intuition discriminate.
Qed.

Ltac count_emitted :=
  repeat match goal with
  | |- context [occurrences ?p ?l] =>
      lazymatch l with
      | after_stop _ => fail
      | _ => tryif is_var l then fail else
             let v := eval cbv in (occurrences p l) in
             change (occurrences p l) with v
      end
  end.

Ltac use_position :=
  repeat match goal with
  | H : ?a = ?a -> _ |- _ => specialize (H eq_refl)
  | H : ?a = ?a \/ _ -> _ |- _ => specialize (H (or_introl eq_refl))
  | H : _ \/ ?a = ?a \/ _ -> _ |- _ =>
      specialize (H (or_intror (or_introl eq_refl)))
  | H : _ \/ _ \/ ?a = ?a -> _ |- _ =>
      specialize (H (or_intror (or_intror eq_refl)))
  | H : AtKill <> ReceiverReturned -> _ |- _ =>
      specialize (H ltac:(discriminate))
  end.

Ltac still_quiet :=
  first
    [ apply after_stop_quiet; [assumption | reflexivity]
    | rewrite after_stop_none;
      [reflexivity | rewrite occurrences_app; count_emitted; lia] ].

Lemma orderly_step (platform : string) (c c' : config) (t l : list event) :
  orderly c t -> step platform c l c' -> orderly c' (t ++ l).
Proof.
  unfold orderly.
  intros (Hloop & Hss & Hcl & Hle & Hlate & Hret & Hrk & Hk & Hsend & Hinp)
         Hstep.
  inversion Hstep; subst;
    try match goal with m : message |- _ => destruct m end;
    try match goal with
        | H : interrupted ?pc = Some _ |- _ =>
            destruct pc; simpl in H; inversion H; subst; clear H
        end;
    cbn [shared mpc rpc past_loop] in *;
    cbn [set_stop local_close peer_close raise_sigint take_sigint
         stop closed close_called remote_closed sigint] in *;
    rewrite ?app_nil_r, ?occurrences_app;
    cbn [print_message print_during_input print_over_input map];
    count_emitted; use_position.
  all: repeat split; intros.
  all: try discriminate.
  all: try still_quiet.
  all: try lia.
  all: try (intuition (try discriminate; try congruence; try lia); fail).
Qed.

Lemma run_orderly (platform : string) (t : list event) (c : config) :
  run platform initial t c -> orderly c t.
Proof.
  induction 1 as [|t c' l c'' _ IH Hstep].
  - apply orderly_initial.
  - exact (orderly_step platform c' c'' t l IH Hstep).
Qed.




(** The run of [local_shutdown_run], carried on to the end of [main]:
    the status line is shown and the receiver joined. *)
Lemma complete_shutdown_run :
  run "linux" initial
      [(MainThread, Input "> "); (MainThread, StopSet); (MainThread, Close);
       (MainThread, Write Stdout (over_input_text "Connection closed: 1000 bye."));
       (MainThread, Flush Stdout);
       (MainThread, ThreadJoin)]
      {| mpc := MainReturned; rpc := ReceiverReturned;
         shared := {| stop := true; closed := true; close_called := true;
                      remote_closed := false; sigint := false |} |}.
Proof.
  pose (w := {| stop := true; closed := true; close_called := true;
                remote_closed := false; sigint := false |}).
  refine (run_snoc _ _
            [(MainThread, Input "> "); (MainThread, StopSet);
             (MainThread, Close);
             (MainThread,
              Write Stdout (over_input_text "Connection closed: 1000 bye."));
             (MainThread, Flush Stdout)]
            {| mpc := AtJoin; rpc := ReceiverReturned; shared := w |}
            [(MainThread, ThreadJoin)] _ _ (main_join _ w)).
  refine (run_snoc _ _
            [(MainThread, Input "> "); (MainThread, StopSet);
             (MainThread, Close)]
            {| mpc := AtStatus; rpc := ReceiverReturned; shared := w |}
            (map (pair MainThread)
                 (print_over_input "Connection closed: 1000 bye."))
            _ local_shutdown_run
            (main_status _ ReceiverReturned w
               {| close_code := Some 1000%Z; close_reason := Some "bye" |}
               "Connection closed: 1000 bye." eq_refl)).
Qed.

(** X20. In every execution [main] returns last: when the main thread
    has returned, the receiver thread has returned too, the flag is set
    and [close()] has been called. *)
Theorem main_returns_last
    (platform : string) (t : list event) (c : config) :
  run platform initial t c ->
  mpc c = MainReturned ->
  rpc c = ReceiverReturned
  /\ stop (shared c) = true /\ close_called (shared c) = true.
Proof.
  intros Hrun Hpc. apply run_orderly in Hrun.
  destruct Hrun as (_ & _ & _ & _ & Hlate & Hret & _).
  split; [now apply Hret|]. apply Hlate. auto.
Qed.

Lemma main_returns_last_witness :
  ReceiverReturned = ReceiverReturned /\ true = true /\ true = true.
Proof.
  exact (main_returns_last "linux" _ _ complete_shutdown_run eq_refl).
Defined.

(** X21. In every execution of the two threads [stop.set()] is called
    at most once, [websocket.close()] at most once and never without
    the flag having been set, and [os.kill] at most once. *)
Theorem shutdown_at_most_once
    (platform : string) (t : list event) (c : config) :
  run platform initial t c ->
  occurrences is_close t <= occurrences is_stop_set t <= 1
  /\ occurrences is_kill t <= 1.
Proof.
  intros Hrun. apply run_orderly in Hrun.
  destruct Hrun as (_ & _ & _ & Hle & _ & _ & _ & Hk & _). auto.
Qed.

Lemma shutdown_at_most_once_witness :
  occurrences is_close
    [(MainThread, Input "> "); (MainThread, StopSet); (MainThread, Close)]
  <= occurrences is_stop_set
       [(MainThread, Input "> "); (MainThread, StopSet); (MainThread, Close)]
  <= 1
  /\ occurrences is_kill
       [(MainThread, Input "> "); (MainThread, StopSet); (MainThread, Close)]
     <= 1.
Proof.
  exact (shutdown_at_most_once "linux" _ _ local_shutdown_run).
Defined.

(** X22. In every execution, whatever the interleaving, the main thread
    neither prompts nor sends once it has set the flag. *)
Theorem quiet_after_stop_set
    (platform : string) (t : list event) (c : config) :
  run platform initial t c ->
  occurrences is_send (after_stop t) = 0
  /\ occurrences is_input (after_stop t) = 0.
Proof.
  intros Hrun. apply run_orderly in Hrun.
  destruct Hrun as (_ & _ & _ & _ & _ & _ & _ & _ & Hs & Hi). auto.
Qed.

Lemma quiet_after_stop_set_witness :
  occurrences is_send
    (after_stop
       [(MainThread, Input "> "); (MainThread, StopSet); (MainThread, Close);
        (MainThread,
         Write Stdout (over_input_text "Connection closed: 1000 bye."));
        (MainThread, Flush Stdout);
        (MainThread, ThreadJoin)]) = 0
  /\ occurrences is_input
       (after_stop
          [(MainThread, Input "> "); (MainThread, StopSet); (MainThread, Close);
           (MainThread,
            Write Stdout (over_input_text "Connection closed: 1000 bye."));
           (MainThread, Flush Stdout);
           (MainThread, ThreadJoin)]) = 0.
Proof.
  exact (quiet_after_stop_set "linux" _ _ complete_shutdown_run).
Defined.
